(** * The product catalog view ([App.tsx]): fetch / pagination / loading

    A shallow embedding of the single React component of the repository:
    its four state cells, the asynchronous [fetchProducts], the mount
    effect, the "Load More" handler, the conditional blocks of the render
    output and the cell renderers of the Price and Rating columns.

    Layout: the ECMAScript Number values the component computes with
    ([JsNumber]), the data model, the element trees of the cell renderers,
    the effect monad [fetchProducts] runs in, the component, the session
    (event loop) semantics, and then the theorems. *)

From Stdlib Require Import ZArith QArith Qround Qabs List String Ascii Bool Lia.
From Stdlib Require Import DecimalString.
Import ListNotations.

Open Scope string_scope.
Open Scope Z_scope.

(** ** ECMAScript Number values *)

Module JsNumber.

(** A Number is an IEEE 754 binary64 value.  [Finite m e] is the value
    [m * 2^e], kept in the format's canonical form: either
    [2^52 <= |m| < 2^53] and [-1074 <= e <= 971] (normal), or
    [|m| < 2^52] and [e = -1074] (subnormal, zero included).  The two
    zeros are not told apart: every operation used by the component
    ([+], [toFixed], [ToString]) gives the same result on both. *)
Inductive number : Type :=
| NaN
| Infinity (negative : bool)
| Finite (m e : Z).

Definition emin : Z := -1074.
Definition emax : Z := 971.

Definition zero : number := Finite 0 emin.

Definition number_eqb (x y : number) : bool :=
  match x, y with
  | NaN, NaN => true
  | Infinity a, Infinity b => Bool.eqb a b
  | Finite m1 e1, Finite m2 e2 => (m1 =? m2) && (e1 =? e2)
  | _, _ => false
  end.

Definition neg (x : number) : number :=
  match x with
  | NaN => NaN
  | Infinity s => Infinity (negb s)
  | Finite m e => Finite (- m) e
  end.

(** The mathematical value of a finite Number. *)
Definition to_Q (m e : Z) : Q := inject_Z m * Qpower 2 e.

Definition pow10 (k : Z) : Q := Qpower 10 k.

(** [n / d] rounded to the nearest integer, ties to even ([0 < d]). *)
Definition round_half_even (n d : Z) : Z :=
  let q := n / d in
  let r := n mod d in
  match 2 * r ?= d with
  | Lt => q
  | Gt => q + 1
  | Eq => if Z.even q then q else q + 1
  end.

(** [floor (log2 (a / b))] for [0 < a] and [0 < b]. *)
Definition floor_log2 (a b : Z) : Z :=
  let d := Z.log2 a - Z.log2 b in
  if 0 <=? d
  then (if b * 2 ^ d <=? a then d else d - 1)
  else (if b <=? a * 2 ^ (- d) then d else d - 1).

(** [(a / b) / 2^e] rounded to the nearest integer, ties to even. *)
Definition scaled_round (a b e : Z) : Z :=
  if 0 <=? e
  then round_half_even a (b * 2 ^ e)
  else round_half_even (a * 2 ^ (- e)) b.

(** Round-to-nearest, ties-to-even, of the positive rational [a / b]. *)
Definition round_pos (a b : Z) : number :=
  let e := Z.max (floor_log2 a b - 52) emin in
  let m := scaled_round a b e in
  let '(m, e) := if m =? 2 ^ 53 then (2 ^ 52, e + 1) else (m, e) in
  if emax <? e then Infinity false else Finite m e.

(** The Number value for a real (here rational) number: ECMA-262's
    "the Number value for x". *)
Definition of_Q (q : Q) : number :=
  match Qnum q with
  | 0 => zero
  | Zpos a => round_pos (Zpos a) (Zpos (Qden q))
  | Zneg a => neg (round_pos (Zpos a) (Zpos (Qden q)))
  end.

(** The Number a decimal literal [d * 10^e10] denotes, as [JSON.parse]
    and the source's own literals produce it. *)
Definition of_decimal (d e10 : Z) : number := of_Q (inject_Z d * pow10 e10).

Definition of_Z (z : Z) : number := of_decimal z 0.

(** [x + y] (Number::add). *)
Definition add (x y : number) : number :=
  match x, y with
  | NaN, _ | _, NaN => NaN
  | Infinity a, Infinity b => if Bool.eqb a b then Infinity a else NaN
  | Infinity a, Finite _ _ | Finite _ _, Infinity a => Infinity a
  | Finite m1 e1, Finite m2 e2 => of_Q (Qred (to_Q m1 e1 + to_Q m2 e2))
  end.

(** Decimal digits of a natural number; ["0"] for zero. *)
Definition digits (n : Z) : string :=
  NilEmpty.string_of_uint (N.to_uint (Z.to_N n)).

Fixpoint zeros (k : nat) : string :=
  match k with
  | O => EmptyString
  | S k' => String "0" (zeros k')
  end.

(** The [n] with [10^(n-1) <= q < 10^n], for a positive binary64 value
    [q] (so [q * 10^400 >= 1]). *)
Definition decimal_exponent (q : Q) : Z :=
  Z.of_nat (String.length (digits (Qfloor (q * pow10 400)))) - 400.

(** Number::toString, step 5: integers [n], [k], [s] with [k >= 1],
    [10^(k-1) <= s < 10^k], the Number value for [s * 10^(n-k)] being [x],
    and [k] as small as possible; among the [s] for that [k], the one
    closest to [x]. *)
Definition candidates (q : Q) (n0 k : Z) : list (Z * Z) :=
  flat_map
    (fun n => let lo := Qfloor (q / pow10 (n - k)) in [(lo, n); (lo + 1, n)])
    [n0; n0 + 1].

Definition candidate_value (k : Z) (c : Z * Z) : Q :=
  inject_Z (fst c) * pow10 (snd c - k).

Definition valid (x : number) (k : Z) (c : Z * Z) : bool :=
  (10 ^ (k - 1) <=? fst c) && (fst c <? 10 ^ k)
  && number_eqb (of_Q (candidate_value k c)) x.

Fixpoint closest (q : Q) (k : Z) (cs : list (Z * Z)) : option (Z * Z) :=
  match cs with
  | [] => None
  | c :: cs' =>
      match closest q k cs' with
      | None => Some c
      | Some c' =>
          if Qle_bool (Qabs (candidate_value k c - q))
                      (Qabs (candidate_value k c' - q))
          then Some c else Some c'
      end
  end.

Fixpoint shortest (fuel : nat) (k : Z) (x : number) (q : Q) (n0 : Z)
  : option (Z * Z * Z) :=
  match fuel with
  | O => None
  | S fuel' =>
      match closest q k (filter (valid x k) (candidates q n0 k)) with
      | Some (s, n) => Some (n, k, s)
      | None => shortest fuel' (k + 1) x q n0
      end
  end.

Definition sign_string (z : Z) : string := if z <? 0 then "-" else "+".

(** Number::toString, steps 6 to 11, for the digits [s] ([k] of them) and
    the decimal exponent [n]. *)
Definition format_digits (n k s : Z) : string :=
  let ds := digits s in
  if (-5 <=? n) && (n <=? 21) then
    if k <=? n then ds ++ zeros (Z.to_nat (n - k))
    else if 0 <? n then
      substring 0 (Z.to_nat n) ds ++ "." ++
      substring (Z.to_nat n) (Z.to_nat (k - n)) ds
    else "0." ++ zeros (Z.to_nat (- n)) ++ ds
  else
    let ex := sign_string (n - 1) ++ digits (Z.abs (n - 1)) in
    if k =? 1 then ds ++ "e" ++ ex
    else substring 0 1 ds ++ "." ++
         substring 1 (Z.to_nat (k - 1)) ds ++ "e" ++ ex.

(** Number::toString for a positive finite value.  Seventeen significant
    digits identify every binary64 value, so the search for the shortest
    digit string ends within its fuel. *)
Definition toString_pos (m e : Z) : string :=
  let q := to_Q m e in
  match shortest 17 1 (Finite m e) q (decimal_exponent q) with
  | Some (n, k, s) => format_digits n k s
  | None => EmptyString
  end.

(** Number::toString(x, 10): what [String(x)], a template literal and a
    React text child show for a Number. *)
Definition toString (x : number) : string :=
  match x with
  | NaN => "NaN"
  | Infinity s => if s then "-Infinity" else "Infinity"
  | Finite m e =>
      match m with
      | 0 => "0"
      | Zpos _ => toString_pos m e
      | Zneg _ => "-" ++ toString_pos (- m) e
      end
  end.

(** Number.prototype.toFixed(f) for [0 <= f <= 100]; beyond that the
    method throws a RangeError, reported here as [None]. *)
Definition toFixed (x : number) (f : nat) : option string :=
  if (100 <? f)%nat then None
  else
    match x with
    | Finite m e =>
        let sgn : string := if m <? 0 then "-" else "" in
        let q := to_Q (Z.abs m) e in
        if Qle_bool (pow10 21) q
        then Some (sgn ++ toString (Finite (Z.abs m) e))
        else
          (* the integer n with n / 10^f closest to q, the larger on a tie *)
          let n := Qfloor (q * pow10 (Z.of_nat f) + (1 # 2)) in
          let ds := digits n in
          if (f =? 0)%nat then Some (sgn ++ ds)
          else
            let ds :=
              if (String.length ds <=? f)%nat
              then zeros (f + 1 - String.length ds) ++ ds else ds in
            let k := String.length ds in
            Some (sgn ++ substring 0 (k - f) ds ++ "." ++ substring (k - f) f ds)
    | _ => Some (toString x)
    end.

End JsNumber.

Import JsNumber.

(** ** Data model *)

(** [interface Product]: every [number] field is an ECMAScript Number. *)
Record Rating : Type := mkRating {
  rate : number;
  count : number
}.

Record Product : Type := mkProduct {
  id : number;
  title : string;
  price : number;
  description : string;
  category : string;
  image : string;
  rating : Rating
}.

(** The four [useState] cells of [App]. *)
Record ViewState : Type := mkView {
  products : list Product;
  loading : bool;
  currentPage : number;
  hasMore : bool
}.

(** [useState([])], [useState(false)], [useState(1)], [useState(true)]. *)
Definition initialState : ViewState :=
  {| products := []; loading := false; currentPage := of_Z 1; hasMore := true |}.

(** ** Element trees of the cell renderers *)

#[warnings="-register-all"]
Inductive Node : Type :=
| Text (s : string)
| Num (n : number)
| Elem (tag className : string) (children : list Node).

(** The text a subtree shows: a Number child is shown through
    Number::toString. *)
Fixpoint textContent (n : Node) : string :=
  match n with
  | Text s => s
  | Num x => toString x
  | Elem _ _ children =>
      fold_right (fun c acc => textContent c ++ acc) "" children
  end.

(** [Number(price)]: the identity on a value that already is a Number,
    which is what a [Product] carries. *)
Definition Number_ (x : number) : number := x.

(** [columns[3].render], the Price cell.  [toFixed] can throw, so the
    renderer is partial. *)
Definition render_price (price : number) : option Node :=
  match toFixed (Number_ price) 2 with
  | Some fixed =>
      Some (Elem "div" "text-center"
              [Elem "span" "font-bold text-sm md:text-lg text-green-600"
                 [Text "$"; Text fixed]])
  | None => None
  end.

(** [columns[4].render], the Rating cell, and its two text-bearing spans. *)
Definition rating_average (r : Rating) : Node :=
  Elem "span" "font-semibold text-gray-800 text-xs md:text-base" [Num (rate r)].

Definition rating_reviews (r : Rating) : Node :=
  Elem "span" "text-xs text-gray-500 hidden md:block"
    [Text "("; Num (count r); Text " reviews)"].

Definition star : string :=
  String (ascii_of_nat 226) (String (ascii_of_nat 152) (String (ascii_of_nat 133) "")).

Definition render_rating (r : Rating) : Node :=
  Elem "div" "flex flex-col items-center space-y-1"
    [Elem "div" "flex items-center gap-1"
       [Elem "span" "text-yellow-400 text-sm md:text-lg" [Text star];
        rating_average r];
     rating_reviews r].

(** ** Effects *)

Record JsError : Type := mkError {
  error_name : string;
  error_message : string
}.

(** What the [Response] of a settled [fetch] offers to the component:
    its [ok] flag and what [response.json()] settles to, either a
    rejection (the body does not parse) or the parsed array, which the
    source types as [Product[]]. *)
Record Response : Type := mkResponse {
  ok : bool;
  body : JsError + list Product
}.

(** How the promise returned by [fetch] settles. *)
Inductive FetchOutcome : Type :=
| Rejected (e : JsError)
| Resolved (r : Response).

(** The Product API, as seen from the component: URL to outcome. *)
Definition Network : Type := string -> FetchOutcome.

(** Everything a call of [fetchProducts] does to its surroundings, in
    the order it does it. *)
Inductive Effect : Type :=
| SetLoading (b : bool)
| SetProducts (data : list Product)
| SetHasMore (b : bool)
| SetCurrentPage (page : number)
| SetTimeout (ms : Z)
| Fetch (url : string)
| ConsoleError (label : string) (e : JsError)
| MessageError (content : string).

Record World : Type := mkWorld {
  view : ViewState;
  log : list Effect
}.

Inductive completion (A : Type) : Type :=
| Normal (a : A)
| Throw (e : JsError).
Arguments Normal {A} a.
Arguments Throw {A} e.

(** A computation over the world that completes normally or throws. *)
Definition M (A : Type) : Type := World -> completion A * World.

Definition ret {A} (a : A) : M A := fun w => (Normal a, w).

Definition bind {A B} (c : M A) (k : A -> M B) : M B :=
  fun w =>
    match c w with
    | (Normal a, w') => k a w'
    | (Throw e, w') => (Throw e, w')
    end.

Definition throw {A} (e : JsError) : M A := fun w => (Throw e, w).

Declare Scope eff_scope.
Delimit Scope eff_scope with eff.
Notation "x <- c1 ;; c2" := (bind c1 (fun x => c2))
  (at level 61, c1 at next level, right associativity) : eff_scope.
Notation "c1 ;; c2" := (bind c1 (fun _ => c2))
  (at level 61, right associativity) : eff_scope.

(** [try { body } catch (error) { handler } finally { fin }]: an abrupt
    completion of [fin] wins, otherwise the completion of the [try] or
    of the handler that replaced it. *)
Definition try_catch_finally {A} (body : M A) (handler : JsError -> M A)
    (fin : M unit) : M A :=
  fun w =>
    let '(r, w1) := body w in
    let '(r', w2) :=
      match r with
      | Normal a => (Normal a, w1)
      | Throw e => handler e w1
      end in
    match fin w2 with
    | (Normal _, w3) => (r', w3)
    | (Throw e, w3) => (Throw e, w3)
    end.

Definition emit (e : Effect) (w : World) : World :=
  {| view := view w; log := (log w ++ [e])%list |}.

Definition update (f : ViewState -> ViewState) (w : World) : World :=
  {| view := f (view w); log := log w |}.

(** The state setters: each replaces one cell by the given value. *)
Definition setLoading (b : bool) : M unit :=
  fun w => (Normal tt,
    emit (SetLoading b)
      (update (fun v => {| products := products v; loading := b;
                           currentPage := currentPage v; hasMore := hasMore v |}) w)).

Definition setProducts (data : list Product) : M unit :=
  fun w => (Normal tt,
    emit (SetProducts data)
      (update (fun v => {| products := data; loading := loading v;
                           currentPage := currentPage v; hasMore := hasMore v |}) w)).

Definition setHasMore (b : bool) : M unit :=
  fun w => (Normal tt,
    emit (SetHasMore b)
      (update (fun v => {| products := products v; loading := loading v;
                           currentPage := currentPage v; hasMore := b |}) w)).

Definition setCurrentPage (page : number) : M unit :=
  fun w => (Normal tt,
    emit (SetCurrentPage page)
      (update (fun v => {| products := products v; loading := loading v;
                           currentPage := page; hasMore := hasMore v |}) w)).

(** [await new Promise(resolve => setTimeout(resolve, ms))]. *)
Definition delay (ms : Z) : M unit :=
  fun w => (Normal tt, emit (SetTimeout ms) w).

(** [await fetch(url)]: the request is issued, and a rejection of its
    promise is thrown at the [await]. *)
Definition fetch_ (net : Network) (url : string) : M Response :=
  fun w =>
    match net url with
    | Rejected e => (Throw e, emit (Fetch url) w)
    | Resolved r => (Normal r, emit (Fetch url) w)
    end.

(** [await response.json()]. *)
Definition json (r : Response) : M (list Product) :=
  match body r with
  | inl e => throw e
  | inr data => ret data
  end.

Definition console_error (label : string) (e : JsError) : M unit :=
  fun w => (Normal tt, emit (ConsoleError label e) w).

Definition message_error (content : string) : M unit :=
  fun w => (Normal tt, emit (MessageError content) w).

(** ** The component *)

Open Scope eff_scope.

(** The template literal of the request. *)
Definition products_url (page : number) : string :=
  "https://fakestoreapi.com/products?limit=10&page=" ++ toString page.

(** [fetchProducts] up to its first [await]. *)
Definition fetch_begin : M unit :=
  setLoading true.

(** [fetchProducts] from its first [await] on: the [try] statement. *)
Definition fetch_resume (net : Network) (page : number) : M unit :=
  try_catch_finally
    (delay 2000 ;;
     response <- fetch_ net (products_url page) ;;
     (if negb (ok response)
      then throw (mkError "Error" "Failed to fetch products")
      else ret tt) ;;
     data <- json response ;;
     setProducts data ;;
     setHasMore (0 <? List.length data)%nat ;;
     setCurrentPage page)
    (fun error =>
       console_error "Error fetching products:" error ;;
       message_error "Failed to load products. Please try again.")
    (setLoading false).

(** [const fetchProducts = async (page: number) => ...], run from call
    to settlement against a network that answers at once.  Its completion
    is how the returned promise settles: [Normal] resolves, [Throw]
    rejects. *)
Definition fetchProducts (net : Network) (page : number) : M unit :=
  fetch_begin ;; fetch_resume net page.

Close Scope eff_scope.

(** [useEffect(() => { fetchProducts(1); }, [])] and [handleLoadMore],
    over whatever a call of [fetchProducts] amounts to for the caller
    (a whole run, or the start of a suspended call). *)
Definition mountEffect {R} (fetchProducts : number -> R) : R :=
  fetchProducts (of_Z 1).

Definition handleLoadMore {R} (fetchProducts : number -> R) (v : ViewState) : R :=
  fetchProducts (add (currentPage v) (of_Z 1)).

(** The rows handed to the table, and the conditional blocks of the
    returned tree. *)
Inductive DataSource : Type :=
| SkeletonRows (n : nat)
| ProductRows (rows : list Product).

Record Rendered : Type := mkRendered {
  dataSource : DataSource;
  loadingPanel : bool;
  loadMoreButton : bool;
  endOfListMessage : bool;
  showingCount : option nat
}.

(** [Array.from({ length: 10 }).map(...)]: ten placeholder rows. *)
Definition renderSkeletonRows : DataSource := SkeletonRows 10.

Definition App (v : ViewState) : Rendered :=
  {| dataSource := if loading v then renderSkeletonRows else ProductRows (products v);
     loadingPanel := loading v;
     loadMoreButton := hasMore v && negb (loading v);
     endOfListMessage := negb (hasMore v) && (0 <? List.length (products v))%nat;
     showingCount :=
       if (0 <? List.length (products v))%nat
       then Some (List.length (products v)) else None |}.

(** ** Sessions

    A call of [fetchProducts] is suspended at its three [await]s and
    writes no state cell between the first of them and the settlement of
    the last promise it waits for; from there it runs to its end without
    a further suspension.  A session therefore takes one step when a call
    starts ([fetch_begin]) and one when it is resumed for the last time
    ([fetch_resume], with the outcome the network gave to that call).
    The setters called during one resumption are committed together, so
    the states in between are never rendered.
    Calls are started by the mount effect, once, before the user can act
    on the first paint, and by a click on the "Load More" button, which
    can only happen while the button is part of the rendered tree. *)

Record Session : Type := mkSession {
  world : World;
  mounted : bool;
  inflight : list number   (* the [page] of each suspended call *)
}.

Definition initialSession : Session :=
  {| world := {| view := initialState; log := [] |};
     mounted := false;
     inflight := [] |}.

Inductive Event : Type :=
| Mount
| ClickLoadMore
| Settle (i : nat) (o : FetchOutcome).

(** A call starts: its synchronous prefix runs, and it is suspended. *)
Definition start (page : number) (s : Session) : Session :=
  {| world := snd (fetch_begin (world s));
     mounted := mounted s;
     inflight := (inflight s ++ [page])%list |}.

Fixpoint remove_nth {A} (i : nat) (l : list A) : list A :=
  match l, i with
  | [], _ => []
  | _ :: l', O => l'
  | x :: l', S i' => x :: remove_nth i' l'
  end.

Definition step (e : Event) (s : Session) : option Session :=
  match e with
  | Mount =>
      if mounted s then None
      else Some (mountEffect start
                   {| world := world s; mounted := true; inflight := inflight s |})
  | ClickLoadMore =>
      if mounted s && loadMoreButton (App (view (world s)))
      then Some (handleLoadMore start (view (world s)) s)
      else None
  | Settle i o =>
      match nth_error (inflight s) i with
      | Some page =>
          Some {| world := snd (fetch_resume (fun _ => o) page (world s));
                  mounted := mounted s;
                  inflight := remove_nth i (inflight s) |}
      | None => None
      end
  end.

Fixpoint run (t : list Event) (s : Session) : option Session :=
  match t with
  | [] => Some s
  | e :: t' =>
      match step e s with
      | Some s' => run t' s'
      | None => None
      end
  end.

(** The data of a fetch that succeeded, if it did. *)
Definition succeeded (o : FetchOutcome) : option (list Product) :=
  match o with
  | Resolved {| ok := true; body := inr data |} => Some data
  | _ => None
  end.

(** A fetch fails when its promise rejects or the response is not ok. *)
Definition failed (o : FetchOutcome) : bool :=
  match o with
  | Rejected _ => true
  | Resolved r => negb (ok r)
  end.

(** What the most recent successful fetch of a trace returned. *)
Fixpoint last_success (t : list Event) : option (list Product) :=
  match t with
  | [] => None
  | e :: t' =>
      match last_success t' with
      | Some data => Some data
      | None =>
          match e with
          | Settle _ o => succeeded o
          | _ => None
          end
      end
  end.

(** The error notifications ([message.error]) and the requests in a log. *)
Definition notifications (l : list Effect) : list string :=
  flat_map (fun e => match e with MessageError c => [c] | _ => [] end) l.

Definition requests (l : list Effect) : list string :=
  flat_map (fun e => match e with Fetch u => [u] | _ => [] end) l.

(** ** Sample data *)

Definition sample (n : Z) : Product :=
  {| id := of_Z n; title := "Backpack"; price := of_decimal 195 (-1);
     description := "Fits 15 inch laptops"; category := "men's clothing";
     image := "https://fakestoreapi.com/img/81fPKd-2AYL.jpg";
     rating := {| rate := of_decimal 43 (-1); count := of_Z 120 |} |}.

Definition ten_products : list Product := map sample [1; 2; 3; 4; 5; 6; 7; 8; 9; 10].

Definition ok_with (data : list Product) : FetchOutcome :=
  Resolved {| ok := true; body := inr data |}.

Definition network_error : FetchOutcome :=
  Rejected (mkError "TypeError" "Failed to fetch").

Definition server_error : FetchOutcome :=
  Resolved {| ok := false; body := inl (mkError "SyntaxError" "Unexpected token") |}.

(** ** The two ways through a call

    The error the [catch] block receives, if the [try] block throws. *)
Definition caught (o : FetchOutcome) : option JsError :=
  match o with
  | Rejected e => Some e
  | Resolved {| ok := false |} => Some (mkError "Error" "Failed to fetch products")
  | Resolved {| ok := true; body := inl e |} => Some e
  | Resolved {| ok := true; body := inr _ |} => None
  end.

Definition with_loading (b : bool) (v : ViewState) : ViewState :=
  {| products := products v; loading := b;
     currentPage := currentPage v; hasMore := hasMore v |}.

(** The effects of the two ways through the [try] statement. *)
Definition success_effects (page : number) (data : list Product) : list Effect :=
  [SetTimeout 2000; Fetch (products_url page); SetProducts data;
   SetHasMore (0 <? List.length data)%nat; SetCurrentPage page; SetLoading false].

Definition failure_effects (page : number) (e : JsError) : list Effect :=
  [SetTimeout 2000; Fetch (products_url page);
   ConsoleError "Error fetching products:" e;
   MessageError "Failed to load products. Please try again.";
   SetLoading false].

(** ** Predicates on logs and sessions *)

(** The writes to the [loading] cell in a log. *)
Definition loading_writes (l : list Effect) : list bool :=
  flat_map (fun e => match e with SetLoading b => [b] | _ => [] end) l.

(** A session is reachable when some trace of events leads to it from
    the first render. *)
Definition reachable (s : Session) : Prop :=
  exists t, run t initialSession = Some s.

(** No call is in flight and [loading] is false, or exactly one is and
    [loading] is true; before the mount effect nothing has happened. *)
Definition well_formed (s : Session) : Prop :=
  (mounted s = false -> s = initialSession) /\
  ((inflight s = [] /\ loading (view (world s)) = false) \/
   (exists p, inflight s = [p] /\ loading (view (world s)) = true)).

(** While [hasMore] is false no call is in flight. *)
Definition settled_when_done (s : Session) : Prop :=
  hasMore (view (world s)) = false -> inflight s = [].

(** The view the "Load More" scenario starts from: page 1 is displayed. *)
Definition page_one_loaded : World :=
  {| view := {| products := ten_products; loading := false;
                currentPage := of_Z 1; hasMore := true |};
     log := [] |}.

(** A session that loads page 1 and then finds page 2 empty. *)
Definition to_the_end : list Event :=
  [Mount; Settle 0 (ok_with ten_products); ClickLoadMore; Settle 0 (ok_with [])].

(** Page 1 is displayed and the mount effect has run. *)
Definition page_one_session : Session :=
  {| world := page_one_loaded; mounted := true; inflight := [] |}.

(** ** The table body

    [<Table columns dataSource rowKey>] is given the products, or the
    placeholder objects of [renderSkeletonRows] while loading, and hands
    [record[dataIndex]] to the [render] of each column.  A field of a
    row is therefore the datum of a product, the element a placeholder
    row holds in its place, or absent ([undefined]). *)

Inductive Field (A : Type) : Type :=
| Datum (a : A)
| Placeholder (n : Node)
| Absent.
Arguments Datum {A} a.
Arguments Placeholder {A} n.
Arguments Absent {A}.

Record Row : Type := mkRow {
  row_key : Field string;
  row_id : Field number;
  row_image : Field string;
  row_title : Field string;
  row_description : Field string;
  row_category : Field string;
  row_price : Field number;
  row_rating : Field Rating
}.

(** A product as a row: every member of [interface Product], no [key]. *)
Definition product_row (p : Product) : Row :=
  {| row_key := Absent;
     row_id := Datum (id p);
     row_image := Datum (image p);
     row_title := Datum (title p);
     row_description := Datum (description p);
     row_category := Datum (category p);
     row_price := Datum (price p);
     row_rating := Datum (rating p) |}.

(** [<Skeleton.Image>] and [<Skeleton.Input>], by their class names. *)
Definition SkeletonImage (className : string) : Node :=
  Elem "Skeleton.Image" className [].

Definition SkeletonInput (className : string) : Node :=
  Elem "Skeleton.Input" className [].

(** The object [renderSkeletonRows] builds for [index]. *)
Definition skeleton_row (index : number) : Row :=
  {| row_key := Datum ("skeleton-" ++ toString index);
     row_id := Absent;
     row_image :=
       Placeholder (Elem "div" "flex justify-center"
                      [SkeletonImage "w-16 h-16 md:w-20 md:h-20 rounded-lg"]);
     row_title :=
       Placeholder (Elem "div" "space-y-2"
                      [SkeletonInput "w-full";
                       SkeletonInput "w-3/4 hidden md:block"]);
     row_description := Absent;
     row_category :=
       Placeholder (Elem "div" "flex justify-center w-10 md:w-20"
                      [SkeletonInput "w-10 md:w-20"]);
     row_price :=
       Placeholder (Elem "div" "text-center" [SkeletonInput "w-12 md:w-16"]);
     row_rating :=
       Placeholder (Elem "div" "flex flex-col items-center space-y-1"
                      [SkeletonInput "w-10 md:w-12";
                       SkeletonInput "w-12 md:w-16 hidden md:block"]) |}.

(** [Array.from({ length: n }).map((_, index) => ...)]. *)
Definition skeleton_rows (n : nat) : list Row :=
  map (fun i => skeleton_row (of_Z (Z.of_nat i))) (seq 0 n).

(** The rows of the table body for a [dataSource]. *)
Definition table_rows (d : DataSource) : list Row :=
  match d with
  | SkeletonRows n => skeleton_rows n
  | ProductRows rows => map product_row rows
  end.

(** The values [rowKey] can return. *)
Inductive Key : Type :=
| KNumber (n : number)
| KString (s : string)
| KElement (n : Node)
| KUndefined.

(** ToBoolean of a Number: false for zero and NaN. *)
Definition truthy (x : number) : bool :=
  match x with
  | NaN => false
  | Infinity _ => true
  | Finite m _ => negb (m =? 0)
  end.

(** [rowKey={(record: any) => record.id || record.key}]. *)
Definition rowKey (record : Row) : Key :=
  let key :=
    match row_key record with
    | Datum s => KString s
    | Placeholder n => KElement n
    | Absent => KUndefined
    end in
  match row_id record with
  | Datum n => if truthy n then KNumber n else key
  | Placeholder n => KElement n
  | Absent => key
  end.

(** [Number(price)] on a field: an element is an object without a
    numeric primitive value, so it converts to NaN, as [undefined] does. *)
Definition Number_field (f : Field number) : number :=
  match f with
  | Datum n => Number_ n
  | Placeholder _ => NaN
  | Absent => NaN
  end.

(** The Price cell of a row: [columns[3].render(record.price)]. *)
Definition price_cell (record : Row) : option Node :=
  render_price (Number_field (row_price record)).

(** The Rating renderer on whatever [rating.rate] and [rating.count]
    evaluate to; a member that is [undefined] renders no child. *)
Definition member_child (x : option number) : list Node :=
  match x with
  | Some n => [Num n]
  | None => []
  end.

Definition render_rating_members (rate_ count_ : option number) : Node :=
  Elem "div" "flex flex-col items-center space-y-1"
    [Elem "div" "flex items-center gap-1"
       [Elem "span" "text-yellow-400 text-sm md:text-lg" [Text star];
        Elem "span" "font-semibold text-gray-800 text-xs md:text-base"
          (member_child rate_)];
     Elem "span" "text-xs text-gray-500 hidden md:block"
       ([Text "("] ++ member_child count_ ++ [Text " reviews)"])%list].

(** The Rating cell of a row: [columns[4].render(record.rating)].  An
    element has no [rate] and no [count]; on [undefined] the member
    access throws. *)
Definition rating_cell (record : Row) : option Node :=
  match row_rating record with
  | Datum r => Some (render_rating_members (Some (rate r)) (Some (count r)))
  | Placeholder _ => Some (render_rating_members None None)
  | Absent => None
  end.

(** ** Strings of decimal digits *)

Definition is_digit (c : ascii) : bool :=
  (48 <=? nat_of_ascii c)%nat && (nat_of_ascii c <=? 57)%nat.

Fixpoint all_digits (s : string) : bool :=
  match s with
  | EmptyString => true
  | String c s' => is_digit c && all_digits s'
  end.

(** ** Traces *)

(** The products of the latest successful fetch of a trace. *)
Definition displayed (t : list Event) : list Product :=
  match last_success t with
  | Some data => data
  | None => []
  end.

(** The number of calls of a trace that ended in the [catch] block. *)
Fixpoint failures (t : list Event) : nat :=
  match t with
  | [] => O
  | Settle _ o :: t' =>
      match succeeded o with
      | Some _ => failures t'
      | None => S (failures t')
      end
  | _ :: t' => failures t'
  end.

Definition failure_notice : string :=
  "Failed to load products. Please try again.".

Definition endpoint : string :=
  "https://fakestoreapi.com/products?limit=10&page=".

(** The sessions two sample traces lead to. *)
Definition session_after (t : list Event) : Session :=
  match run t initialSession with
  | Some s => s
  | None => initialSession
  end.

Definition catalog_end : Session :=
  Eval vm_compute in session_after to_the_end.

Definition loading_page_two : Session :=
  Eval vm_compute in
    session_after [Mount; Settle 0 (ok_with ten_products); ClickLoadMore].

Definition page_one_reached : Session :=
  Eval vm_compute in session_after [Mount; Settle 0 (ok_with ten_products)].

Definition page_two_failed : Session :=
  Eval vm_compute in
    session_after [Mount; Settle 0 (ok_with ten_products); ClickLoadMore;
                   Settle 0 server_error].



(** * Theorems *)

(** ** The Number model on known values

    Binary64 behaviour that a decimal model would get wrong: the sum
    [0.1 + 0.2], [toFixed] of a literal that is not a binary fraction,
    the switch to exponent notation, the largest odd-spaced integer. *)

Lemma round_half_even_nearest n d :
  0 < d -> 2 * Z.abs (n - round_half_even n d * d) <= d.
Proof.
  intros Hd. unfold round_half_even. cbv zeta.
  pose proof (Z.div_mod n d ltac:(lia)) as Hdm.
  pose proof (Z.mod_pos_bound n d Hd) as Hb.
  set (q := n / d) in *. set (r := n mod d) in *. clearbody q r.
  destruct (2 * r ?= d) eqn:Ec.
  - apply Z.compare_eq in Ec. destruct (Z.even q); lia.
  - pose proof (proj1 (Z.compare_lt_iff _ _) Ec). lia.
  - pose proof (proj1 (Z.compare_gt_iff _ _) Ec). lia.
Qed.

Example sum_of_tenths :
  toString (add (of_decimal 1 (-1)) (of_decimal 2 (-1))) = "0.30000000000000004".
Proof. vm_compute. reflexivity. Qed.

Example toFixed_rounds_the_binary_value :
  toFixed (of_decimal 1005 (-3)) 2 = Some "1.00" /\
  toFixed (of_decimal 8345 (-3)) 2 = Some "8.35" /\
  toFixed (of_decimal 25 (-1)) 0 = Some "3" /\
  toFixed (of_decimal (-1) (-3)) 2 = Some "-0.00".
Proof. vm_compute. repeat split. Qed.

Example toString_notations :
  toString (of_decimal 1 21) = "1e+21" /\
  toString (of_decimal 123456789012345680000 0) = "123456789012345680000" /\
  toString (of_decimal 1 (-6)) = "0.000001" /\
  toString (of_decimal 1 (-7)) = "1e-7" /\
  toString (of_decimal 5 (-324)) = "5e-324" /\
  toString (of_decimal 9007199254740993 0) = "9007199254740992" /\
  toString (of_decimal (-15) (-1)) = "-1.5".
Proof. vm_compute. repeat split. Qed.

Example page_numbers :
  add (of_Z 1) (of_Z 1) = of_Z 2 /\
  products_url (of_Z 2) = "https://fakestoreapi.com/products?limit=10&page=2".
Proof. vm_compute. split; reflexivity. Qed.

(** ** One call of [fetchProducts] *)

Lemma caught_or_succeeded (o : FetchOutcome) :
  (exists e, caught o = Some e /\ succeeded o = None) \/
  (exists data, succeeded o = Some data /\ caught o = None).
Proof.
  destruct o as [e | [[] [e | data]]]; simpl; eauto.
Qed.

Lemma failed_caught (o : FetchOutcome) :
  failed o = true -> exists e, caught o = Some e.
Proof.
  destruct o as [e | [[] b]]; simpl; intros H; try discriminate; eauto.
Qed.

Lemma succeeded_inv (o : FetchOutcome) (data : list Product) :
  succeeded o = Some data -> o = ok_with data.
Proof.
  destruct o as [e | [[] [e | d]]]; simpl; intros H; inversion H; reflexivity.
Qed.

Ltac run_eff :=
  unfold fetch_resume, fetch_begin, try_catch_finally, bind, fetch_, json,
    delay, throw, ret, setLoading, setProducts, setHasMore, setCurrentPage,
    console_error, message_error, emit, update; simpl.

Lemma fetch_resume_succeeded net page data w :
  succeeded (net (products_url page)) = Some data ->
  fetch_resume net page w =
  (Normal tt,
   {| view := {| products := data; loading := false;
                 currentPage := page; hasMore := (0 <? List.length data)%nat |};
      log := (log w ++ success_effects page data)%list |}).
Proof.
  intros H. apply succeeded_inv in H.
  run_eff. rewrite H. simpl.
  unfold success_effects. rewrite <- !app_assoc. reflexivity.
Qed.

Lemma fetch_resume_caught net page e w :
  caught (net (products_url page)) = Some e ->
  fetch_resume net page w =
  (Normal tt,
   {| view := with_loading false (view w);
      log := (log w ++ failure_effects page e)%list |}).
Proof.
  intros H. run_eff.
  destruct (net (products_url page)) as [e' | [[] [e' | d]]];
    simpl in *; inversion H; subst;
    unfold failure_effects, with_loading; rewrite <- !app_assoc; reflexivity.
Qed.

Lemma fetchProducts_unfold net page w :
  fetchProducts net page w =
  fetch_resume net page
    {| view := with_loading true (view w); log := (log w ++ [SetLoading true])%list |}.
Proof. reflexivity. Qed.

(** C1. A successful fetch of page [p] replaces [products] by exactly the
    sequence the API returned (whatever was displayed before), sets
    [hasMore] to (length of that sequence > 0) and [currentPage] to [p]. *)
Theorem fetch_success_replaces net p data w :
  net (products_url p) = ok_with data ->
  let w' := snd (fetchProducts net p w) in
  products (view w') = data /\
  hasMore (view w') = (0 <? List.length data)%nat /\
  currentPage (view w') = p.
Proof.
  intros H. rewrite fetchProducts_unfold.
  rewrite (fetch_resume_succeeded net p data) by (rewrite H; reflexivity).
  simpl. auto.
Qed.

(** C2. A fetch that fails (the request rejects, or the response is not
    ok) leaves [products] and [currentPage] as they were, emits exactly one
    error notification and ends with [loading] false; no cell other than
    [loading] is written. *)
Theorem fetch_failure_atomic net p w :
  failed (net (products_url p)) = true ->
  let w' := snd (fetchProducts net p w) in
  products (view w') = products (view w) /\
  currentPage (view w') = currentPage (view w) /\
  notifications (log w') =
    (notifications (log w) ++ ["Failed to load products. Please try again."])%list /\
  loading (view w') = false /\
  view w' = with_loading false (view w).
Proof.
  intros H. destruct (failed_caught _ H) as [e He].
  rewrite fetchProducts_unfold, (fetch_resume_caught net p e) by exact He.
  simpl. repeat split.
  unfold notifications. rewrite !flat_map_app. simpl. rewrite app_nil_r. reflexivity.
Qed.

(** C9. Whatever the page and however the API answers (success, non-ok
    response, rejection, unparsable body), the promise [fetchProducts]
    returns resolves: no exception leaves the function. *)
Theorem fetchProducts_resolves net p w :
  fst (fetchProducts net p w) = Normal tt.
Proof.
  rewrite fetchProducts_unfold.
  destruct (caught_or_succeeded (net (products_url p))) as [[e [He _]] | [d [Hd _]]].
  - rewrite (fetch_resume_caught net p e) by exact He. reflexivity.
  - rewrite (fetch_resume_succeeded net p d) by exact Hd. reflexivity.
Qed.

(** ** Sessions: what every reachable state satisfies *)

Lemma fetch_resume_view net page w :
  let v' := view (snd (fetch_resume net page w)) in
  match succeeded (net (products_url page)) with
  | Some data =>
      v' = {| products := data; loading := false; currentPage := page;
              hasMore := (0 <? List.length data)%nat |}
  | None => v' = with_loading false (view w)
  end.
Proof.
  destruct (caught_or_succeeded (net (products_url page)))
    as [[e [He Hs]] | [d [Hd _]]].
  - rewrite Hs, (fetch_resume_caught net page e) by exact He. reflexivity.
  - rewrite Hd, (fetch_resume_succeeded net page d) by exact Hd. reflexivity.
Qed.

Lemma fetch_resume_loading net page w :
  loading (view (snd (fetch_resume net page w))) = false.
Proof.
  pose proof (fetch_resume_view net page w) as H. simpl in H.
  destruct (succeeded (net (products_url page))); rewrite H; reflexivity.
Qed.

Lemma initial_well_formed : well_formed initialSession.
Proof. split; [reflexivity | left; split; reflexivity]. Qed.

Lemma step_well_formed e s s' :
  well_formed s -> step e s = Some s' -> well_formed s'.
Proof.
  intros [Hm Hf] Hstep. destruct e as [| | i o]; simpl in Hstep.
  - destruct (mounted s) eqn:Em; [discriminate |].
    inversion Hstep; subst; clear Hstep. rewrite (Hm eq_refl).
    split; [discriminate | right; eexists; split; reflexivity].
  - destruct (mounted s) eqn:Em; [| discriminate]. simpl in Hstep.
    destruct (hasMore (view (world s)) && negb (loading (view (world s)))) eqn:Eb;
      [| discriminate].
    apply andb_true_iff in Eb. destruct Eb as [_ El].
    apply negb_true_iff in El.
    inversion Hstep; subst; clear Hstep.
    split; [simpl; rewrite Em; discriminate |].
    destruct Hf as [[Hi _] | [p [_ Hl]]]; [| congruence].
    right. unfold handleLoadMore, start. simpl. rewrite Hi.
    eexists; split; reflexivity.
  - destruct (nth_error (inflight s) i) as [page |] eqn:En; [| discriminate].
    inversion Hstep; subst; clear Hstep.
    destruct Hf as [[Hi _] | [p [Hi _]]].
    + rewrite Hi in En. destruct i; discriminate.
    + split.
      * simpl. intros Hm'. specialize (Hm Hm'). rewrite Hm in Hi. discriminate.
      * left. simpl. rewrite fetch_resume_loading. rewrite Hi.
        destruct i as [| i]; [split; reflexivity |].
        rewrite Hi in En. destruct i; discriminate.
Qed.

Lemma run_well_formed t s s' :
  well_formed s -> run t s = Some s' -> well_formed s'.
Proof.
  revert s. induction t as [| e t IH]; intros s Hwf Hrun; simpl in Hrun.
  - inversion Hrun; subst; exact Hwf.
  - destruct (step e s) as [s1 |] eqn:Es; [| discriminate].
    eapply IH; [eapply step_well_formed; eassumption | exact Hrun].
Qed.

Lemma reachable_well_formed s : reachable s -> well_formed s.
Proof.
  intros [t Ht]. eapply run_well_formed; [apply initial_well_formed | exact Ht].
Qed.

(** How one step moves [hasMore]: only a successful fetch writes it. *)
Lemma step_hasMore e s s' :
  step e s = Some s' ->
  hasMore (view (world s')) =
  match e with
  | Settle _ o =>
      match succeeded o with
      | Some data => (0 <? List.length data)%nat
      | None => hasMore (view (world s))
      end
  | _ => hasMore (view (world s))
  end.
Proof.
  intros Hstep. destruct e as [| | i o]; simpl in Hstep.
  - destruct (mounted s); [discriminate |]. inversion Hstep; reflexivity.
  - destruct (mounted s && _); [| discriminate]. inversion Hstep; reflexivity.
  - destruct (nth_error (inflight s) i) as [page |]; [| discriminate].
    inversion Hstep; subst; clear Hstep. simpl.
    pose proof (fetch_resume_view (fun _ => o) page (world s)) as H. simpl in H.
    destruct (succeeded o); rewrite H; reflexivity.
Qed.

Lemma run_hasMore t s s' :
  run t s = Some s' ->
  hasMore (view (world s')) =
  match last_success t with
  | Some data => (0 <? List.length data)%nat
  | None => hasMore (view (world s))
  end.
Proof.
  revert s. induction t as [| e t IH]; intros s Hrun; simpl in Hrun.
  - inversion Hrun; reflexivity.
  - destruct (step e s) as [s1 |] eqn:Es; [| discriminate].
    rewrite (IH _ Hrun). simpl.
    destruct (last_success t); [reflexivity |].
    rewrite (step_hasMore _ _ _ Es). destruct e; reflexivity.
Qed.

Lemma length_pos_false {A} (l : list A) :
  (0 <? List.length l)%nat = false <-> l = [].
Proof. destruct l; simpl; split; intros H; try reflexivity; discriminate. Qed.

Lemma step_keeps_mounted e s s' :
  mounted s = true -> step e s = Some s' -> mounted s' = true /\ e <> Mount.
Proof.
  intros Hm Hstep. destruct e as [| | i o]; simpl in Hstep.
  - rewrite Hm in Hstep. discriminate.
  - destruct (mounted s && _); [| discriminate].
    inversion Hstep; subst. simpl. split; [exact Hm | discriminate].
  - destruct (nth_error (inflight s) i); [| discriminate].
    inversion Hstep; subst. simpl. split; [exact Hm | discriminate].
Qed.

Lemma run_no_second_mount t s s' :
  mounted s = true -> run t s = Some s' -> ~ In Mount t.
Proof.
  revert s. induction t as [| e t IH]; intros s Hm Hrun; simpl in *.
  - tauto.
  - destruct (step e s) as [s1 |] eqn:Es; [| discriminate].
    destruct (step_keeps_mounted _ _ _ Hm Es) as [Hm1 Hne].
    intros [Heq | Hin]; [congruence | exact (IH _ Hm1 Hrun Hin)].
Qed.

Lemma step_settled_when_done e s s' :
  well_formed s -> settled_when_done s -> step e s = Some s' ->
  settled_when_done s'.
Proof.
  intros Hwf Hd Hstep Hfalse.
  pose proof (step_well_formed _ _ _ Hwf Hstep) as [_ [[Hi _] | [p [_ Hl]]]];
    [exact Hi |].
  pose proof (step_hasMore _ _ _ Hstep) as Hh.
  destruct e as [| | i o]; simpl in Hstep.
  - destruct (mounted s) eqn:Em; [discriminate |].
    destruct Hwf as [Hinit _]. rewrite (Hinit Em) in Hh.
    simpl in Hh. congruence.
  - destruct (mounted s); [| discriminate]. simpl in Hstep.
    destruct (hasMore (view (world s))) eqn:Eh; [congruence | discriminate].
  - destruct (nth_error (inflight s) i); [| discriminate].
    inversion Hstep; subst. simpl in Hl.
    rewrite fetch_resume_loading in Hl. discriminate.
Qed.

Lemma run_settled_when_done t s s' :
  well_formed s -> settled_when_done s -> run t s = Some s' ->
  settled_when_done s'.
Proof.
  revert s. induction t as [| e t IH]; intros s Hwf Hd Hrun; simpl in Hrun.
  - inversion Hrun; subst; exact Hd.
  - destruct (step e s) as [s1 |] eqn:Es; [| discriminate].
    eapply IH; [| | exact Hrun].
    + eapply step_well_formed; eassumption.
    + eapply step_settled_when_done; eassumption.
Qed.

(** What is displayed is what the latest successful fetch returned. *)
Lemma step_products e s s' :
  step e s = Some s' ->
  products (view (world s')) =
  match e with
  | Settle _ o =>
      match succeeded o with
      | Some data => data
      | None => products (view (world s))
      end
  | _ => products (view (world s))
  end.
Proof.
  intros Hstep. destruct e as [| | i o]; simpl in Hstep.
  - destruct (mounted s); [discriminate |]. inversion Hstep; reflexivity.
  - destruct (mounted s && _); [| discriminate]. inversion Hstep; reflexivity.
  - destruct (nth_error (inflight s) i) as [page |]; [| discriminate].
    inversion Hstep; subst; clear Hstep. simpl.
    pose proof (fetch_resume_view (fun _ => o) page (world s)) as H. simpl in H.
    destruct (succeeded o); rewrite H; reflexivity.
Qed.

Lemma run_products t s s' :
  run t s = Some s' ->
  products (view (world s')) =
  match last_success t with
  | Some data => data
  | None => products (view (world s))
  end.
Proof.
  revert s. induction t as [| e t IH]; intros s Hrun; simpl in Hrun.
  - inversion Hrun; reflexivity.
  - destruct (step e s) as [s1 |] eqn:Es; [| discriminate].
    rewrite (IH _ Hrun). simpl.
    destruct (last_success t); [reflexivity |].
    rewrite (step_products _ _ _ Es). destruct e; reflexivity.
Qed.

(** X2. The guard of the end-of-list block never holds in a session:
    [hasMore] is false only after an empty page, which also emptied
    [products]. *)
Lemma end_of_list_message_never_shown s :
  reachable s -> endOfListMessage (App (view (world s))) = false.
Proof.
  intros [t Hrun]. simpl.
  rewrite (run_hasMore _ _ _ Hrun), (run_products _ _ _ Hrun). simpl.
  destruct (last_success t) as [[| x d] |]; reflexivity.
Qed.

(** X1. No two calls overlap: in every reachable session at most one
    call of [fetchProducts] is in flight. *)
Lemma at_most_one_in_flight s :
  reachable s -> (List.length (inflight s) <= 1)%nat.
Proof.
  intros Hr. destruct (reachable_well_formed s Hr) as [_ [[Hi _] | [p [Hi _]]]];
    rewrite Hi; simpl; lia.
Qed.

(** ** The claims about sessions *)

(** C3. In every reachable state [hasMore] is false exactly when the most
    recent successful fetch returned an empty sequence.  In particular it
    is true as long as no fetch has succeeded; an empty page sets it false
    without an error (the call resolves and notifies nothing); a failed
    fetch leaves it as it was. *)
Theorem hasMore_false_iff_last_page_empty t s :
  run t initialSession = Some s ->
  (hasMore (view (world s)) = false <-> last_success t = Some []) /\
  (last_success t = None -> hasMore (view (world s)) = true) /\
  (forall net p w, net (products_url p) = ok_with [] ->
     hasMore (view (snd (fetchProducts net p w))) = false /\
     fst (fetchProducts net p w) = Normal tt /\
     notifications (log (snd (fetchProducts net p w))) = notifications (log w)) /\
  (forall net p w, failed (net (products_url p)) = true ->
     hasMore (view (snd (fetchProducts net p w))) = hasMore (view w)).
Proof.
  intros Hrun. pose proof (run_hasMore _ _ _ Hrun) as Hh. simpl in Hh.
  repeat split.
  - intros Hf. rewrite Hh in Hf. destruct (last_success t) as [d |].
    + apply length_pos_false in Hf. congruence.
    + discriminate.
  - intros Hl. rewrite Hh, Hl. reflexivity.
  - intros Hl. rewrite Hh, Hl. reflexivity.
  - rewrite fetchProducts_unfold,
      (fetch_resume_succeeded net p []) by (rewrite H; reflexivity).
    reflexivity.
  - rewrite fetchProducts_unfold,
      (fetch_resume_succeeded net p []) by (rewrite H; reflexivity).
    reflexivity.
  - rewrite fetchProducts_unfold,
      (fetch_resume_succeeded net p []) by (rewrite H; reflexivity).
    simpl. unfold notifications, success_effects.
    rewrite !flat_map_app. simpl. rewrite !app_nil_r. reflexivity.
  - intros net p w Hf. destruct (failed_caught _ Hf) as [e He].
    rewrite fetchProducts_unfold, (fetch_resume_caught net p e) by exact He.
    reflexivity.
Qed.

(** C5. Every call of [fetchProducts] writes [loading := true] first and
    [loading := false] last, whatever happens in between, and writes
    [loading] nowhere else; in a reachable state [loading] is true exactly
    while a call is in flight, so never at rest. *)
Theorem loading_brackets_every_fetch :
  (forall net p w, exists mid,
     log (snd (fetchProducts net p w)) =
       (log w ++ SetLoading true :: mid ++ [SetLoading false])%list /\
     loading_writes mid = [] /\
     loading (view (snd (fetch_begin w))) = true /\
     loading (view (snd (fetchProducts net p w))) = false) /\
  (forall s, reachable s ->
     (loading (view (world s)) = true <-> inflight s <> [])).
Proof.
  split.
  - intros net p w. rewrite fetchProducts_unfold.
    destruct (caught_or_succeeded (net (products_url p)))
      as [[e [He _]] | [d [Hd _]]].
    + rewrite (fetch_resume_caught net p e) by exact He.
      eexists [_; _; _; _]. simpl. rewrite <- app_assoc.
      repeat split; reflexivity.
    + rewrite (fetch_resume_succeeded net p d) by exact Hd.
      eexists [_; _; _; _; _]. simpl. rewrite <- app_assoc.
      repeat split; reflexivity.
  - intros s Hr. destruct (reachable_well_formed s Hr) as [_ [[Hi Hl] | [p [Hi Hl]]]];
      rewrite Hi, Hl; split; intros H; try discriminate; congruence.
Qed.

(** C6. The "Load More" button is rendered exactly when [hasMore] is true
    and [loading] is false, and a click on it starts one call of
    [fetchProducts] for page [currentPage + 1], whose request asks for
    that page. *)
Theorem load_more_fetches_next_page :
  (forall v, loadMoreButton (App v) = true <-> hasMore v = true /\ loading v = false) /\
  (forall s s', step ClickLoadMore s = Some s' ->
     loadMoreButton (App (view (world s))) = true /\
     inflight s' = (inflight s ++ [add (currentPage (view (world s))) (of_Z 1)])%list) /\
  (forall net v w,
     requests (log (snd (handleLoadMore (fetchProducts net) v w))) =
     (requests (log w) ++ [products_url (add (currentPage v) (of_Z 1))])%list).
Proof.
  repeat split.
  - apply andb_true_iff in H. tauto.
  - apply andb_true_iff in H. destruct H as [_ H]. apply negb_true_iff in H. exact H.
  - intros [Hh Hl]. simpl. rewrite Hh, Hl. reflexivity.
  - unfold step in H. destruct (mounted s); [| discriminate].
    cbn [andb] in H.
    destruct (loadMoreButton (App (view (world s)))); [reflexivity | discriminate].
  - simpl in H. destruct (mounted s && _); [| discriminate].
    inversion H; reflexivity.
  - intros net v w. unfold handleLoadMore. rewrite fetchProducts_unfold.
    set (p := add (currentPage v) (of_Z 1)).
    destruct (caught_or_succeeded (net (products_url p)))
      as [[e [He _]] | [d [Hd _]]].
    + rewrite (fetch_resume_caught net p e) by exact He. simpl.
      unfold requests. rewrite !flat_map_app. simpl. rewrite app_nil_r.
      reflexivity.
    + rewrite (fetch_resume_succeeded net p d) by exact Hd. simpl.
      unfold requests. rewrite !flat_map_app. simpl. rewrite app_nil_r.
      reflexivity.
Qed.

Lemma first_event_is_mount e s :
  step e initialSession = Some s -> e = Mount.
Proof.
  destruct e as [| | i o]; simpl; intros H;
    [reflexivity | discriminate | destruct i; discriminate].
Qed.

Lemma mount_step :
  step Mount initialSession =
  Some {| world := {| view := with_loading true initialState;
                      log := [SetLoading true] |};
          mounted := true;
          inflight := [of_Z 1] |}.
Proof. reflexivity. Qed.

(** C7. The mount effect runs once and is the first thing that happens:
    it starts one call of [fetchProducts], for page 1.  If the API answers
    that call with 10 products, the state then has 10 products, [hasMore]
    true and [currentPage] 1, after exactly one request, for page 1. *)
Theorem mount_fetches_page_one :
  (forall t s, run t initialSession = Some s ->
     t = [] \/ exists t', t = Mount :: t' /\ ~ In Mount t') /\
  (exists s, step Mount initialSession = Some s /\ inflight s = [of_Z 1]) /\
  (forall data, List.length data = 10%nat ->
     exists s, run [Mount; Settle 0 (ok_with data)] initialSession = Some s /\
       List.length (products (view (world s))) = 10%nat /\
       hasMore (view (world s)) = true /\
       currentPage (view (world s)) = of_Z 1 /\
       loading (view (world s)) = false /\
       requests (log (world s)) = [products_url (of_Z 1)]).
Proof.
  repeat split.
  - intros t s Hrun. destruct t as [| e t]; [left; reflexivity | right].
    simpl in Hrun. destruct (step e initialSession) as [s1 |] eqn:Es; [| discriminate].
    pose proof (first_event_is_mount _ _ Es); subst e.
    exists t. split; [reflexivity |].
    rewrite mount_step in Es. inversion Es; subst.
    eapply run_no_second_mount; [| exact Hrun]. reflexivity.
  - eexists. split; [apply mount_step | reflexivity].
  - intros data Hlen. eexists. split.
    + unfold run. rewrite mount_step. unfold step, nth_error, inflight.
      rewrite (fetch_resume_succeeded _ (of_Z 1) data) by reflexivity.
      reflexivity.
    + cbn [world view products hasMore currentPage loading log snd].
      rewrite Hlen. repeat split.
Qed.

(** C10. Once [hasMore] is false it stays false: in a reachable state
    with [hasMore] false no call is in flight and no event can start one
    (the mount effect has run, the button is not rendered), so the session
    cannot move and the only write that could set it back never happens. *)
Theorem hasMore_false_is_final t s :
  run t initialSession = Some s ->
  hasMore (view (world s)) = false ->
  loadMoreButton (App (view (world s))) = false /\
  inflight s = [] /\
  (forall e, step e s = None) /\
  (forall t' s', run t' s = Some s' -> hasMore (view (world s')) = false).
Proof.
  intros Hrun Hfalse.
  pose proof (run_well_formed _ _ _ initial_well_formed Hrun) as Hwf.
  assert (Hi : inflight s = []).
  { eapply run_settled_when_done; [apply initial_well_formed | | exact Hrun | exact Hfalse].
    intros H; discriminate. }
  assert (Hm : mounted s = true).
  { destruct (mounted s) eqn:Em; [reflexivity |].
    destruct Hwf as [Hinit _]. rewrite (Hinit Em) in Hfalse. discriminate. }
  assert (Hb : loadMoreButton (App (view (world s))) = false).
  { simpl. rewrite Hfalse. reflexivity. }
  assert (Hstuck : forall e, step e s = None).
  { intros [| | i o]; unfold step.
    - rewrite Hm. reflexivity.
    - rewrite Hm, Hb. reflexivity.
    - rewrite Hi. destruct i; reflexivity. }
  repeat split; try assumption.
  intros t' s' Hrun'. destruct t' as [| e t']; simpl in Hrun'.
  - inversion Hrun'; subst; exact Hfalse.
  - rewrite Hstuck in Hrun'. discriminate.
Qed.

(** C4, as the component behaves.  "Load More" at [currentPage = 1] with
    an empty page 2 leaves [products] empty and [hasMore] false; the
    end-of-list message is rendered only when [hasMore] is false and
    [products] is non-empty, so it is not shown, and neither is the
    button. *)
Theorem load_more_empty_page net w :
  currentPage (view w) = of_Z 1 ->
  net (products_url (of_Z 2)) = ok_with [] ->
  let w' := snd (handleLoadMore (fetchProducts net) (view w) w) in
  products (view w') = [] /\
  hasMore (view w') = false /\
  endOfListMessage (App (view w')) = false /\
  loadMoreButton (App (view w')) = false /\
  (forall v, endOfListMessage (App v) = true <->
             hasMore v = false /\ products v <> []).
Proof.
  intros Hp Hnet. unfold handleLoadMore. rewrite Hp.
  replace (add (of_Z 1) (of_Z 1)) with (of_Z 2) by (vm_compute; reflexivity).
  rewrite fetchProducts_unfold.
  rewrite (fetch_resume_succeeded net (of_Z 2) []) by (rewrite Hnet; reflexivity).
  repeat split.
  - apply andb_true_iff in H. destruct H as [H _].
    apply negb_true_iff in H. exact H.
  - apply andb_true_iff in H. destruct H as [_ H].
    intros He. simpl in H. rewrite He in H. discriminate.
  - intros [Hh Hne]. simpl. rewrite Hh.
    destruct (products v); [congruence | reflexivity].
Qed.

(** C4 as stated fails: page 1 with ten products is displayed, the button
    is there, the API answers page 2 with no product; the click ends with
    no product, [hasMore] false and no end-of-list message. *)
Lemma load_more_empty_page_no_message :
  let net : Network := fun _ => ok_with [] in
  let w' := snd (handleLoadMore (fetchProducts net)
                   (view page_one_loaded) page_one_loaded) in
  currentPage (view page_one_loaded) = of_Z 1 /\
  loadMoreButton (App (view page_one_loaded)) = true /\
  net (products_url (of_Z 2)) = ok_with [] /\
  ~ (products (view w') = [] /\
     hasMore (view w') = false /\
     endOfListMessage (App (view w')) = true).
Proof.
  repeat split. vm_compute. intros [_ [_ H]]. discriminate.
Qed.

(** C8. The Price cell of a product priced 19.5 shows "$19.50"; the Rating
    cell of a rating [{rate: 4.3, count: 120}] shows "4.3" as the average
    and "(120 reviews)". *)
Theorem price_and_rating_cells :
  let r := {| rate := of_decimal 43 (-1); count := of_Z 120 |} in
  option_map textContent (render_price (of_decimal 195 (-1))) = Some "$19.50" /\
  textContent (rating_average r) = "4.3" /\
  textContent (rating_reviews r) = "(120 reviews)" /\
  textContent (render_rating r) = star ++ "4.3" ++ "(120 reviews)".
Proof.
  vm_compute. repeat split.
Qed.

(** ** The claims at concrete inputs *)

(** Page 2 answers with one product while the ten of page 1 are displayed. *)
Lemma fetch_success_replaces_witness :
  let net : Network := fun _ => ok_with [sample 11] in
  let w' := snd (fetchProducts net (of_Z 2) page_one_loaded) in
  net (products_url (of_Z 2)) = ok_with [sample 11] /\
  products (view page_one_loaded) = ten_products /\
  products (view w') = [sample 11] /\
  hasMore (view w') = true /\
  currentPage (view w') = of_Z 2.
Proof.
  split; [reflexivity | split; [reflexivity |]].
  exact (fetch_success_replaces (fun _ => ok_with [sample 11]) (of_Z 2)
           [sample 11] page_one_loaded eq_refl).
Defined.

(** The request for page 2 rejects while page 1 is displayed. *)
Lemma fetch_failure_atomic_witness :
  let net : Network := fun _ => network_error in
  let w' := snd (fetchProducts net (of_Z 2) page_one_loaded) in
  failed (net (products_url (of_Z 2))) = true /\
  products (view w') = ten_products /\
  currentPage (view w') = of_Z 1 /\
  notifications (log w') = ["Failed to load products. Please try again."] /\
  loading (view w') = false /\
  view w' = view page_one_loaded.
Proof.
  split; [reflexivity |].
  exact (fetch_failure_atomic (fun _ => network_error) (of_Z 2)
           page_one_loaded eq_refl).
Defined.

(** Mount, ten products, a click, an empty page 2. *)
Lemma hasMore_false_iff_last_page_empty_witness :
  exists s, run to_the_end initialSession = Some s /\
    (hasMore (view (world s)) = false <-> last_success to_the_end = Some []).
Proof.
  eexists.
  refine ((fun H => conj H (proj1 (hasMore_false_iff_last_page_empty to_the_end _ H))) _).
  vm_compute. reflexivity.
Defined.

(** The session right after the mount effect. *)
Lemma loading_brackets_every_fetch_witness :
  let s := {| world := {| view := with_loading true initialState;
                          log := [SetLoading true] |};
              mounted := true; inflight := [of_Z 1] |} in
  reachable s /\ (loading (view (world s)) = true <-> inflight s <> []).
Proof.
  refine ((fun H => conj H (proj2 loading_brackets_every_fetch _ H)) _).
  exists [Mount]. reflexivity.
Defined.

(** A click while page 1 is displayed starts the call for page 2. *)
Lemma load_more_fetches_next_page_witness :
  exists s', step ClickLoadMore page_one_session = Some s' /\
    loadMoreButton (App (view (world page_one_session))) = true /\
    inflight s' = [add (of_Z 1) (of_Z 1)] /\
    add (of_Z 1) (of_Z 1) = of_Z 2.
Proof.
  eexists.
  refine ((fun H =>
             conj H (conj (proj1 (proj1 (proj2 load_more_fetches_next_page) _ _ H))
                       (conj (proj2 (proj1 (proj2 load_more_fetches_next_page) _ _ H)) _))) _).
  - vm_compute. reflexivity.
  - reflexivity.
Defined.

(** The mount call answered with the ten sample products. *)
Lemma mount_fetches_page_one_witness :
  List.length ten_products = 10%nat /\
  exists s, run [Mount; Settle 0 (ok_with ten_products)] initialSession = Some s /\
    List.length (products (view (world s))) = 10%nat /\
    hasMore (view (world s)) = true /\
    currentPage (view (world s)) = of_Z 1 /\
    loading (view (world s)) = false /\
    requests (log (world s)) = [products_url (of_Z 1)].
Proof.
  split; [reflexivity |].
  exact (proj2 (proj2 mount_fetches_page_one) ten_products eq_refl).
Defined.

(** After the empty page 2 nothing can happen any more. *)
Lemma hasMore_false_is_final_witness :
  exists s, run to_the_end initialSession = Some s /\
    hasMore (view (world s)) = false /\
    forall e, step e s = None.
Proof.
  eexists.
  refine ((fun H1 H2 =>
             conj H1 (conj H2
               (proj1 (proj2 (proj2 (hasMore_false_is_final to_the_end _ H1 H2)))))) _ _).
  - vm_compute. reflexivity.
  - reflexivity.
Defined.

(** Page 1 displayed, every request answered with an empty page. *)
Lemma load_more_empty_page_witness :
  let net : Network := fun _ => ok_with [] in
  let w' := snd (handleLoadMore (fetchProducts net)
                   (view page_one_loaded) page_one_loaded) in
  products (view w') = [] /\
  hasMore (view w') = false /\
  endOfListMessage (App (view w')) = false /\
  loadMoreButton (App (view w')) = false.
Proof.
  pose proof (load_more_empty_page (fun _ => ok_with []) page_one_loaded
                eq_refl eq_refl) as H.
  cbv zeta in H. destruct H as [H1 [H2 [H3 [H4 _]]]].
  repeat split; assumption.
Defined.

(** ** Further properties of sessions *)

Lemma with_loading_restores v :
  loading v = false -> with_loading false (with_loading true v) = v.
Proof. destruct v as [ps l cp hm]; simpl; intros ->; reflexivity. Qed.

(** What a click needs and what it leaves behind, in a reachable session. *)
Lemma click_in_reachable s s1 :
  reachable s -> step ClickLoadMore s = Some s1 ->
  mounted s = true /\ hasMore (view (world s)) = true /\
  loading (view (world s)) = false /\ inflight s = [] /\
  s1 = {| world := {| view := with_loading true (view (world s));
                      log := (log (world s) ++ [SetLoading true])%list |};
          mounted := true;
          inflight := [add (currentPage (view (world s))) (of_Z 1)] |}.
Proof.
  intros Hr Hstep. destruct (reachable_well_formed s Hr) as [_ Hf].
  unfold step in Hstep. destruct (mounted s) eqn:Em; [| discriminate].
  cbn [andb] in Hstep.
  destruct (loadMoreButton (App (view (world s)))) eqn:Eb; [| discriminate].
  simpl in Eb. apply andb_true_iff in Eb. destruct Eb as [Hh Hl].
  apply negb_true_iff in Hl.
  destruct Hf as [[Hi _] | [p [_ Hl']]]; [| congruence].
  repeat split; try assumption.
  inversion Hstep. unfold handleLoadMore, start. simpl. rewrite Hi, Em.
  reflexivity.
Qed.

(** X1 at the session right after the mount effect. *)
Lemma at_most_one_in_flight_witness :
  let s := {| world := {| view := with_loading true initialState;
                          log := [SetLoading true] |};
              mounted := true; inflight := [of_Z 1] |} in
  reachable s /\ (List.length (inflight s) <= 1)%nat.
Proof.
  refine ((fun H => conj H (at_most_one_in_flight _ H)) _).
  exists [Mount]. reflexivity.
Defined.

(** X2 at the end of the catalog. *)
Lemma end_of_list_message_never_shown_witness :
  reachable catalog_end /\ hasMore (view (world catalog_end)) = false /\
  endOfListMessage (App (view (world catalog_end))) = false.
Proof.
  assert (H : reachable catalog_end)
    by (exists to_the_end; vm_compute; reflexivity).
  exact (conj H (conj eq_refl (end_of_list_message_never_shown catalog_end H))).
Defined.

(** X3. When the catalog ends the screen is blank: in a reachable session
    with [hasMore] false the table has no row and neither the loading
    panel, the button, the end-of-list message nor the count is rendered. *)
Theorem end_of_catalog_is_blank s :
  reachable s -> hasMore (view (world s)) = false ->
  App (view (world s)) =
    {| dataSource := ProductRows []; loadingPanel := false;
       loadMoreButton := false; endOfListMessage := false;
       showingCount := None |} /\
  table_rows (dataSource (App (view (world s)))) = [].
Proof.
  intros Hr Hfalse. pose proof Hr as [t Hrun].
  pose proof (reachable_well_formed s Hr) as [_ Hf].
  assert (Hi : inflight s = []).
  { eapply run_settled_when_done;
      [apply initial_well_formed | | exact Hrun | exact Hfalse].
    intros H; discriminate. }
  assert (Hl : loading (view (world s)) = false).
  { destruct Hf as [[_ Hl] | [p [Hp _]]]; [exact Hl | congruence]. }
  assert (Hp : products (view (world s)) = []).
  { rewrite (run_products _ _ _ Hrun).
    pose proof (run_hasMore _ _ _ Hrun) as Hh. rewrite Hfalse in Hh.
    destruct (last_success t) as [d |]; [| discriminate].
    apply length_pos_false. symmetry. exact Hh. }
  unfold App. rewrite Hl, Hp, Hfalse. split; reflexivity.
Qed.

Lemma end_of_catalog_is_blank_witness :
  reachable catalog_end /\ hasMore (view (world catalog_end)) = false /\
  table_rows (dataSource (App (view (world catalog_end)))) = [].
Proof.
  assert (H : reachable catalog_end)
    by (exists to_the_end; vm_compute; reflexivity).
  exact (conj H (conj eq_refl (proj2 (end_of_catalog_is_blank catalog_end H eq_refl)))).
Defined.

(** X4. What the table shows.  At rest its rows are the products of the
    latest successful fetch, in the order the API gave them (none before
    the first success); while a call is in flight they are the ten
    placeholder rows, whatever was fetched before.  The count block
    follows the latest successful fetch in both cases. *)
Theorem table_shows_latest_page t s :
  run t initialSession = Some s ->
  (inflight s = [] ->
     table_rows (dataSource (App (view (world s)))) = map product_row (displayed t)) /\
  (inflight s <> [] ->
     table_rows (dataSource (App (view (world s)))) = skeleton_rows 10) /\
  showingCount (App (view (world s))) =
    match displayed t with
    | [] => None
    | _ :: _ => Some (List.length (displayed t))
    end.
Proof.
  intros Hrun.
  pose proof (run_well_formed _ _ _ initial_well_formed Hrun) as [_ Hf].
  pose proof (run_products _ _ _ Hrun) as Hp. simpl in Hp.
  fold (displayed t) in Hp.
  repeat split.
  - intros Hi. destruct Hf as [[_ Hl] | [p [Hp' _]]]; [| congruence].
    simpl. rewrite Hl, Hp. reflexivity.
  - intros Hi. destruct Hf as [[Hi' _] | [p [_ Hl]]]; [congruence |].
    simpl. rewrite Hl. reflexivity.
  - simpl. rewrite Hp. destruct (displayed t); reflexivity.
Qed.

Lemma table_shows_latest_page_witness :
  let t := [Mount; Settle 0 (ok_with ten_products); ClickLoadMore] in
  run t initialSession = Some loading_page_two /\
  table_rows (dataSource (App (view (world loading_page_two)))) = skeleton_rows 10 /\
  showingCount (App (view (world loading_page_two))) = Some 10%nat.
Proof.
  assert (H : run [Mount; Settle 0 (ok_with ten_products); ClickLoadMore]
                initialSession = Some loading_page_two)
    by (vm_compute; reflexivity).
  refine (conj H (conj (proj1 (proj2 (table_shows_latest_page _ _ H)) _)
                       (proj2 (proj2 (table_shows_latest_page _ _ H))))).
  discriminate.
Defined.

(** X5. A "Load More" that fails can be retried.  When the call a click
    started ends in the [catch] block (rejection, response not ok, or a
    body that does not parse), every state cell is back to what it was
    before the click, the button is rendered again, and the next click
    starts a call for the same page. *)
Theorem failed_load_more_can_be_retried s s1 s2 o :
  reachable s ->
  step ClickLoadMore s = Some s1 ->
  step (Settle 0 o) s1 = Some s2 ->
  succeeded o = None ->
  view (world s2) = view (world s) /\
  loadMoreButton (App (view (world s2))) = true /\
  exists s3, step ClickLoadMore s2 = Some s3 /\ inflight s3 = inflight s1.
Proof.
  intros Hr Hc Hs Ho.
  destruct (click_in_reachable s s1 Hr Hc) as [Hm [Hh [Hl [Hi Hs1]]]].
  subst s1. unfold step, nth_error, inflight in Hs.
  destruct (caught_or_succeeded o) as [[e [He _]] | [d [Hd _]]]; [| congruence].
  rewrite (fetch_resume_caught (fun _ => o) _ e) in Hs by exact He.
  inversion Hs; subst s2; clear Hs.
  cbn [world view snd mounted inflight remove_nth].
  rewrite (with_loading_restores _ Hl).
  assert (Hb : loadMoreButton (App (view (world s))) = true)
    by (simpl; rewrite Hh, Hl; reflexivity).
  repeat split; [exact Hb |].
  eexists. unfold step. cbn [world view mounted andb]. rewrite Hb.
  split; reflexivity.
Qed.

Lemma failed_load_more_can_be_retried_witness :
  reachable page_one_reached /\
  step ClickLoadMore page_one_reached = Some loading_page_two /\
  step (Settle 0 server_error) loading_page_two = Some page_two_failed /\
  succeeded server_error = None /\
  view (world page_two_failed) = view (world page_one_reached) /\
  exists s3, step ClickLoadMore page_two_failed = Some s3 /\
             inflight s3 = inflight loading_page_two.
Proof.
  assert (Hr : reachable page_one_reached)
    by (exists [Mount; Settle 0 (ok_with ten_products)]; vm_compute; reflexivity).
  assert (H1 : step ClickLoadMore page_one_reached = Some loading_page_two)
    by (vm_compute; reflexivity).
  assert (H2 : step (Settle 0 server_error) loading_page_two = Some page_two_failed)
    by (vm_compute; reflexivity).
  pose proof (failed_load_more_can_be_retried _ _ _ _ Hr H1 H2 eq_refl) as H.
  exact (conj Hr (conj H1 (conj H2 (conj eq_refl
           (conj (proj1 H) (proj2 (proj2 H))))))).
Defined.



(** What one step adds to the notifications and to the requests. *)
Lemma step_notifications e s s' :
  step e s = Some s' ->
  notifications (log (world s')) =
  (notifications (log (world s)) ++
   match e with
   | Settle _ o =>
       match succeeded o with
       | Some _ => []
       | None => [failure_notice]
       end
   | _ => []
   end)%list.
Proof.
  intros Hstep. destruct e as [| | i o]; simpl in Hstep.
  - destruct (mounted s); [discriminate |]. inversion Hstep; subst.
    simpl. unfold notifications. rewrite flat_map_app. reflexivity.
  - destruct (mounted s && _); [| discriminate]. inversion Hstep; subst.
    simpl. unfold notifications. rewrite flat_map_app. reflexivity.
  - destruct (nth_error (inflight s) i) as [page |]; [| discriminate].
    inversion Hstep; subst; clear Hstep. cbn [world].
    destruct (caught_or_succeeded o) as [[e [He Hs]] | [d [Hd _]]].
    + rewrite Hs, (fetch_resume_caught (fun _ => o) page e) by exact He.
      simpl. unfold notifications. rewrite flat_map_app. reflexivity.
    + rewrite Hd, (fetch_resume_succeeded (fun _ => o) page d) by exact Hd.
      simpl. unfold notifications. rewrite flat_map_app. reflexivity.
Qed.

Lemma step_requests e s s' :
  step e s = Some s' ->
  exists added,
    requests (log (world s')) = (requests (log (world s)) ++ added)%list /\
    Forall (fun u => exists page, u = products_url page) added.
Proof.
  intros Hstep. destruct e as [| | i o]; simpl in Hstep.
  - destruct (mounted s); [discriminate |]. inversion Hstep; subst.
    exists []. simpl. unfold requests. rewrite flat_map_app. split; auto.
  - destruct (mounted s && _); [| discriminate]. inversion Hstep; subst.
    exists []. simpl. unfold requests. rewrite flat_map_app. split; auto.
  - destruct (nth_error (inflight s) i) as [page |]; [| discriminate].
    inversion Hstep; subst; clear Hstep. cbn [world].
    exists [products_url page].
    split; [| constructor; [exists page; reflexivity | constructor]].
    destruct (caught_or_succeeded o) as [[e [He Hs]] | [d [Hd _]]].
    + rewrite (fetch_resume_caught (fun _ => o) page e) by exact He.
      simpl. unfold requests. rewrite flat_map_app. reflexivity.
    + rewrite (fetch_resume_succeeded (fun _ => o) page d) by exact Hd.
      simpl. unfold requests. rewrite flat_map_app. reflexivity.
Qed.

Lemma run_notifications t s s' :
  run t s = Some s' ->
  notifications (log (world s')) =
  (notifications (log (world s)) ++ repeat failure_notice (failures t))%list.
Proof.
  revert s. induction t as [| e t IH]; intros s Hrun; simpl in Hrun.
  - inversion Hrun; subst. simpl. rewrite app_nil_r. reflexivity.
  - destruct (step e s) as [s1 |] eqn:Es; [| discriminate].
    rewrite (IH _ Hrun), (step_notifications _ _ _ Es), <- app_assoc.
    f_equal. destruct e as [| | i o]; try reflexivity.
    simpl. destruct (succeeded o); reflexivity.
Qed.

(** X7. The error notifications of a session are exactly one per call
    that ended in the [catch] block, all with the same text; a call that
    succeeds, the mount effect and a click notify nothing. *)
Theorem one_notification_per_failed_fetch t s :
  run t initialSession = Some s ->
  notifications (log (world s)) = repeat failure_notice (failures t).
Proof.
  intros Hrun. rewrite (run_notifications _ _ _ Hrun). reflexivity.
Qed.

Lemma one_notification_per_failed_fetch_witness :
  let t := [Mount; Settle 0 (ok_with ten_products); ClickLoadMore;
            Settle 0 server_error] in
  run t initialSession = Some page_two_failed /\
  notifications (log (world page_two_failed)) = [failure_notice].
Proof.
  assert (H : run [Mount; Settle 0 (ok_with ten_products); ClickLoadMore;
                   Settle 0 server_error] initialSession = Some page_two_failed)
    by (vm_compute; reflexivity).
  exact (conj H (one_notification_per_failed_fetch _ _ H)).
Defined.

Lemma prefix_append (s1 s2 : string) : prefix s1 (s1 ++ s2) = true.
Proof.
  induction s1 as [| c s1 IH]; simpl; [destruct s2; reflexivity |].
  destruct (ascii_dec c c); [exact IH | congruence].
Qed.

Lemma run_requests t s s' :
  run t s = Some s' ->
  Forall (fun u => exists page, u = products_url page) (requests (log (world s))) ->
  Forall (fun u => exists page, u = products_url page) (requests (log (world s'))).
Proof.
  revert s. induction t as [| e t IH]; intros s Hrun Hall; simpl in Hrun.
  - inversion Hrun; subst; exact Hall.
  - destruct (step e s) as [s1 |] eqn:Es; [| discriminate].
    apply (IH _ Hrun).
    destruct (step_requests _ _ _ Es) as [added [Heq Hadd]].
    rewrite Heq. apply Forall_app. split; assumption.
Qed.

(** X8. Every request of a session goes to the products endpoint with
    page size 10: its URL is the template of [fetchProducts] at some page,
    so it starts with the fixed prefix that ends in [page=]. *)
Theorem every_request_asks_for_ten s :
  reachable s ->
  Forall (fun u => (exists page, u = products_url page) /\ prefix endpoint u = true)
         (requests (log (world s))).
Proof.
  intros [t Hrun].
  pose proof (run_requests _ _ _ Hrun (Forall_nil _)) as H.
  eapply Forall_impl; [| exact H].
  intros u [page Hu]. split; [exists page; exact Hu |].
  subst u. apply prefix_append.
Qed.

Lemma every_request_asks_for_ten_witness :
  reachable page_two_failed /\
  requests (log (world page_two_failed)) =
    [products_url (of_Z 1); products_url (of_Z 2)] /\
  Forall (fun u => (exists page, u = products_url page) /\ prefix endpoint u = true)
         (requests (log (world page_two_failed))).
Proof.
  assert (H : reachable page_two_failed)
    by (exists [Mount; Settle 0 (ok_with ten_products); ClickLoadMore;
                Settle 0 server_error]; vm_compute; reflexivity).
  refine (conj H (conj _ (every_request_asks_for_ten _ H))).
  vm_compute. reflexivity.
Defined.

(** X9. While more pages may exist the user is never left without a way
    on: after the mount effect, in a reachable session with [hasMore]
    true, exactly one of the loading panel and the button is rendered,
    the button exactly when no call is in flight. *)
Theorem panel_or_button s :
  reachable s -> mounted s = true -> hasMore (view (world s)) = true ->
  loadingPanel (App (view (world s))) = negb (loadMoreButton (App (view (world s)))) /\
  (loadMoreButton (App (view (world s))) = true <-> inflight s = []) /\
  (inflight s = [] -> exists s', step ClickLoadMore s = Some s').
Proof.
  intros Hr Hm Hh. destruct (reachable_well_formed s Hr) as [_ Hf].
  unfold step. rewrite Hm. simpl. rewrite Hh.
  destruct Hf as [[Hi Hl] | [p [Hi Hl]]]; rewrite Hl, Hi; simpl.
  - repeat split; eauto.
  - repeat split; intros H; discriminate.
Qed.

Lemma panel_or_button_witness :
  reachable page_two_failed /\
  loadMoreButton (App (view (world page_two_failed))) = true /\
  loadingPanel (App (view (world page_two_failed))) = false.
Proof.
  assert (H : reachable page_two_failed)
    by (exists [Mount; Settle 0 (ok_with ten_products); ClickLoadMore;
                Settle 0 server_error]; vm_compute; reflexivity).
  pose proof (panel_or_button _ H eq_refl eq_refl) as [H1 [H2 _]].
  exact (conj H (conj (proj2 H2 eq_refl) H1)).
Defined.

(** ** The cells of the table *)

Lemma length_append (s1 s2 : string) :
  String.length (s1 ++ s2) = (String.length s1 + String.length s2)%nat.
Proof. induction s1 as [| c s1 IH]; simpl; [reflexivity | rewrite IH; reflexivity]. Qed.

Lemma append_empty_r (s : string) : s ++ "" = s.
Proof. induction s as [| c s IH]; simpl; [reflexivity | rewrite IH; reflexivity]. Qed.

Lemma length_zeros k : String.length (zeros k) = k.
Proof. induction k as [| k IH]; simpl; [reflexivity | rewrite IH; reflexivity]. Qed.

Lemma length_substring s : forall n m,
  (n + m <= String.length s)%nat -> String.length (substring n m s) = m.
Proof.
  induction s as [| c s IH]; intros n m H; simpl in H.
  - assert (n = O) by lia. assert (m = O) by lia. subst. reflexivity.
  - destruct n as [| n]; simpl.
    + destruct m as [| m]; [reflexivity |]. simpl. rewrite IH by lia. reflexivity.
    + apply IH. lia.
Qed.

Lemma all_digits_append s1 s2 :
  all_digits s1 = true -> all_digits s2 = true -> all_digits (s1 ++ s2) = true.
Proof.
  induction s1 as [| c s1 IH]; simpl; intros H1 H2; [exact H2 |].
  apply andb_true_iff in H1. destruct H1 as [Hc H1].
  rewrite Hc, (IH H1 H2). reflexivity.
Qed.

Lemma all_digits_zeros k : all_digits (zeros k) = true.
Proof. induction k as [| k IH]; simpl; [reflexivity | exact IH]. Qed.

Lemma all_digits_substring s : forall n m,
  all_digits s = true -> all_digits (substring n m s) = true.
Proof.
  induction s as [| c s IH]; intros n m H.
  - destruct n, m; reflexivity.
  - simpl in H. apply andb_true_iff in H. destruct H as [Hc Hs].
    destruct n as [| n]; simpl.
    + destruct m as [| m]; [reflexivity |]. simpl. rewrite Hc. apply IH, Hs.
    + apply IH, Hs.
Qed.

Lemma all_digits_uint (d : Decimal.uint) :
  all_digits (NilEmpty.string_of_uint d) = true.
Proof. induction d; simpl; try reflexivity; exact IHd. Qed.

Lemma all_digits_digits n : all_digits (digits n) = true.
Proof. apply all_digits_uint. Qed.

(** [toFixed(2)] below 10^21: digits, a point, two digits. *)
Lemma toFixed_two_decimals m e :
  Qle_bool (pow10 21) (to_Q (Z.abs m) e) = false ->
  exists a b,
    toFixed (Finite m e) 2 = Some ((if m <? 0 then "-" else "") ++ a ++ "." ++ b) /\
    (1 <= String.length a)%nat /\ all_digits a = true /\
    String.length b = 2%nat /\ all_digits b = true.
Proof.
  intros Hsmall. unfold toFixed.
  change (100 <? 2)%nat with false. cbv iota. rewrite Hsmall.
  change (2 =? 0)%nat with false. cbv iota zeta.
  set (ds := digits (Qfloor (to_Q (Z.abs m) e * pow10 (Z.of_nat 2) + (1 # 2)))).
  set (padded := if (String.length ds <=? 2)%nat
                 then zeros (2 + 1 - String.length ds) ++ ds else ds).
  assert (Hlen : (3 <= String.length padded)%nat).
  { unfold padded. destruct (String.length ds <=? 2)%nat eqn:E.
    - apply Nat.leb_le in E. rewrite length_append, length_zeros. lia.
    - apply Nat.leb_gt in E. lia. }
  assert (Hdig : all_digits padded = true).
  { unfold padded. destruct (String.length ds <=? 2)%nat.
    - apply all_digits_append; [apply all_digits_zeros | apply all_digits_digits].
    - apply all_digits_digits. }
  exists (substring 0 (String.length padded - 2) padded),
         (substring (String.length padded - 2) 2 padded).
  split; [reflexivity |].
  rewrite !length_substring by lia.
  repeat split; try lia; apply all_digits_substring, Hdig.
Qed.

(** X10. The Price cell never fails to render, and for every finite
    price of magnitude below 10^21 it shows a dollar sign, a minus sign
    if the price is negative, at least one digit, a point and exactly two
    digits. *)
Theorem price_cell_has_two_decimals :
  (forall x, exists cell, render_price x = Some cell) /\
  (forall m e,
     Qle_bool (pow10 21) (to_Q (Z.abs m) e) = false ->
     exists a b,
       option_map textContent (render_price (Finite m e)) =
         Some ("$" ++ (if m <? 0 then "-" else "") ++ a ++ "." ++ b) /\
       (1 <= String.length a)%nat /\ all_digits a = true /\
       String.length b = 2%nat /\ all_digits b = true).
Proof.
  split.
  - intros x. unfold render_price.
    assert (H : exists fixed, toFixed (Number_ x) 2 = Some fixed).
    { unfold toFixed, Number_. change (100 <? 2)%nat with false. cbv iota.
      destruct x as [| s | m e]; [eauto | eauto |].
      destruct (Qle_bool _ _); [eauto |].
      change (2 =? 0)%nat with false. cbv iota zeta. eauto. }
    destruct H as [fixed ->]. eauto.
  - intros m e Hsmall.
    destruct (toFixed_two_decimals m e Hsmall) as [a [b [Hf H]]].
    exists a, b. split; [| exact H].
    unfold render_price, Number_. rewrite Hf.
    cbn [option_map textContent fold_right]. rewrite !append_empty_r.
    reflexivity.
Qed.

Lemma price_cell_has_two_decimals_witness :
  of_decimal 195 (-1) = Finite 5488762045857792 (-48) /\
  Qle_bool (pow10 21) (to_Q (Z.abs 5488762045857792) (-48)) = false /\
  exists a b,
    option_map textContent (render_price (Finite 5488762045857792 (-48))) =
      Some ("$" ++ "" ++ a ++ "." ++ b) /\
    (1 <= String.length a)%nat /\ all_digits a = true /\
    String.length b = 2%nat /\ all_digits b = true.
Proof.
  split; [vm_compute; reflexivity |].
  assert (H : Qle_bool (pow10 21) (to_Q (Z.abs 5488762045857792) (-48)) = false)
    by (vm_compute; reflexivity).
  exact (conj H (proj2 price_cell_has_two_decimals 5488762045857792 (-48) H)).
Defined.

(** On a product the row cells are the cells of the column renderers. *)
Lemma product_row_cells (p : Product) :
  price_cell (product_row p) = render_price (price p) /\
  rating_cell (product_row p) = Some (render_rating (rating p)).
Proof. split; reflexivity. Qed.

Lemma skeleton_row_cells (index : number) :
  option_map textContent (price_cell (skeleton_row index)) = Some "$NaN" /\
  option_map textContent (rating_cell (skeleton_row index)) =
    Some (star ++ "( reviews)").
Proof. split; reflexivity. Qed.

Lemma length_skeleton_rows n : List.length (skeleton_rows n) = n.
Proof. unfold skeleton_rows. rewrite length_map, length_seq. reflexivity. Qed.

(** X11. While [loading] is true the table body is the ten placeholder
    rows, and the Price and Rating renderers still run on them: every
    Price cell reads "$NaN" (the placeholder element converts to NaN) and
    every Rating cell reads the star followed by "( reviews)", the
    element having neither [rate] nor [count]. *)
Theorem loading_cells_show_no_data v :
  loading v = true ->
  let rows := table_rows (dataSource (App v)) in
  List.length rows = 10%nat /\
  Forall (fun r =>
            option_map textContent (price_cell r) = Some "$NaN" /\
            option_map textContent (rating_cell r) = Some (star ++ "( reviews)"))
         rows.
Proof.
  intros Hl. unfold App. cbn [dataSource]. rewrite Hl.
  cbn [table_rows renderSkeletonRows]. split.
  - apply length_skeleton_rows.
  - unfold skeleton_rows. apply Forall_map, Forall_forall.
    intros i _. apply skeleton_row_cells.
Qed.

Lemma loading_cells_show_no_data_witness :
  let v := view (world loading_page_two) in
  loading v = true /\
  products v = ten_products /\
  Forall (fun r =>
            option_map textContent (price_cell r) = Some "$NaN" /\
            option_map textContent (rating_cell r) = Some (star ++ "( reviews)"))
         (table_rows (dataSource (App v))).
Proof.
  split; [reflexivity | split; [vm_compute; reflexivity |]].
  exact (proj2 (loading_cells_show_no_data (view (world loading_page_two)) eq_refl)).
Defined.

Lemma rowKey_product_row (p : Product) :
  rowKey (product_row p) = if truthy (id p) then KNumber (id p) else KUndefined.
Proof. reflexivity. Qed.

Lemma product_keys_are_ids ps :
  Forall (fun p => truthy (id p) = true) ps ->
  map rowKey (map product_row ps) = map KNumber (map id ps).
Proof.
  induction 1 as [| p ps Hp _ IH]; simpl; [reflexivity |].
  rewrite rowKey_product_row, Hp, IH. reflexivity.
Qed.

Lemma NoDup_map_KNumber ns : NoDup ns -> NoDup (map KNumber ns).
Proof.
  induction 1 as [| n ns Hn _ IH]; simpl; constructor; [| exact IH].
  intros Hin. apply in_map_iff in Hin. destruct Hin as [n' [Heq Hin]].
  inversion Heq; subst. exact (Hn Hin).
Qed.

(** X12. [rowKey] gives the row of a product its [id], unless the [id]
    is 0 or NaN: then [record.id || record.key] falls through to the key
    a product does not have, and the row has no key.  So the rows of
    products with pairwise distinct ids, none of them 0 or NaN, have
    pairwise distinct keys, while two products with id 0 share the
    missing key. *)
Theorem product_rows_have_distinct_keys ps :
  Forall (fun p => truthy (id p) = true) ps ->
  NoDup (map id ps) ->
  map rowKey (table_rows (ProductRows ps)) = map KNumber (map id ps) /\
  NoDup (map rowKey (table_rows (ProductRows ps))) /\
  (forall p q, truthy (id p) = false -> truthy (id q) = false ->
     rowKey (product_row p) = KUndefined /\
     rowKey (product_row p) = rowKey (product_row q)).
Proof.
  intros Ht Hnd. cbn [table_rows].
  rewrite (product_keys_are_ids ps Ht).
  repeat split.
  - apply NoDup_map_KNumber, Hnd.
  - rewrite rowKey_product_row, H. reflexivity.
  - rewrite !rowKey_product_row, H, H0. reflexivity.
Qed.

Lemma product_rows_have_distinct_keys_witness :
  Forall (fun p => truthy (id p) = true) ten_products /\
  NoDup (map id ten_products) /\
  NoDup (map rowKey (table_rows (ProductRows ten_products))) /\
  rowKey (product_row (sample 0)) = KUndefined.
Proof.
  assert (H1 : Forall (fun p => truthy (id p) = true) ten_products)
    by (repeat constructor).
  assert (H2 : NoDup (map id ten_products)).
  { vm_compute. repeat constructor; simpl; intuition discriminate. }
  pose proof (product_rows_have_distinct_keys ten_products H1 H2) as [_ [H3 H4]].
  exact (conj H1 (conj H2 (conj H3
           (proj1 (H4 (sample 0) (sample 0) eq_refl eq_refl))))).
Defined.

(** X13. The ten placeholder rows carry the keys [skeleton-0] to
    [skeleton-9] and no id, so [rowKey] gives them ten pairwise distinct
    string keys; a product row, keyed by a Number or not at all, never
    has one of them. *)
Theorem placeholder_rows_have_distinct_keys :
  table_rows renderSkeletonRows = skeleton_rows 10 /\
  map rowKey (table_rows renderSkeletonRows) =
    map KString ["skeleton-0"; "skeleton-1"; "skeleton-2"; "skeleton-3";
                 "skeleton-4"; "skeleton-5"; "skeleton-6"; "skeleton-7";
                 "skeleton-8"; "skeleton-9"] /\
  NoDup (map rowKey (table_rows renderSkeletonRows)) /\
  (forall p, ~ In (rowKey (product_row p)) (map rowKey (table_rows renderSkeletonRows))).
Proof.
  assert (Hk : map rowKey (table_rows renderSkeletonRows) =
    map KString ["skeleton-0"; "skeleton-1"; "skeleton-2"; "skeleton-3";
                 "skeleton-4"; "skeleton-5"; "skeleton-6"; "skeleton-7";
                 "skeleton-8"; "skeleton-9"]) by (vm_compute; reflexivity).
  split; [reflexivity | split; [exact Hk |]]. rewrite Hk. split.
  - simpl. repeat constructor; simpl; intuition discriminate.
  - intros p. rewrite rowKey_product_row.
    destruct (truthy (id p)); simpl; intuition discriminate.
Qed.

(** ** Pages are visited in order *)




